(** * Dashboard authentication (auth.py): roles, users, guards

    A shallow embedding of [auth.py]: the role registry [ROLES], the
    [User] principal, the functions [load_user], [authenticate_user],
    [create_user], [update_user_password], [toggle_user_status],
    [update_user_role] and [update_last_login] over the [usuarios] table
    behind a psycopg2 connection, and the two Flask decorators
    [permission_required] and [role_required]; then [update_own_password],
    the listings [get_all_users] and [get_user_profile], and the cleaning of
    the connection string in [get_db_connection]. *)

From stdpp Require Import base decidable option list sets strings sorting.
From Stdlib Require Import ZArith Lia.

Local Open Scope string_scope.
Local Open Scope Z_scope.
Local Open Scope list_scope.

(** ** Python dictionaries with string keys

    [ROLES] is a dict literal. Python dicts keep insertion order, and the
    order is observable ([', '.join(ROLES.keys())]), so a dict is an
    association list whose keys are pairwise distinct. *)

Section Dict.
Context {V : Type}.

Definition dict := list (string * V).

(** [d.get(k)], with [None] when the key is absent. *)
Fixpoint dict_get (k : string) (d : dict) : option V :=
  match d with
  | [] => None
  | (k', v) :: d' => if decide (k' = k) then Some v else dict_get k d'
  end.

(** [d.keys()] *)
Definition dict_keys (d : dict) : list string := d.*1.

(** [k in d] *)
Definition dict_mem (k : string) (d : dict) : bool :=
  bool_decide (k ∈ dict_keys d).
End Dict.
Arguments dict V : clear implicits.

(** [sep.join(l)] *)
Fixpoint join (sep : string) (l : list string) : string :=
  match l with
  | [] => ""
  | [x] => x
  | x :: l' => x +:+ sep +:+ join sep l'
  end.

(** ** The role registry *)

Record RoleInfo := { name : string; permissions : list string }.

Definition ROLES : dict RoleInfo :=
  [ ("viewer",    {| name := "Visualizador";
                     permissions := ["view"] |});
    ("editor_v2", {| name := "Editor Simple";
                     permissions := ["view"; "edit"] |});
    ("editor",    {| name := "Editor Full";
                     permissions := ["view"; "edit"; "delete"] |});
    ("admin",     {| name := "Administrador";
                     permissions := ["view"; "edit"; "delete";
                                     "manage_users"; "view_audit"] |}) ].

(** ** The principal *)

Record User := mkUser { id : Z; username : string; email : string; role : string }.

(** [ROLES.get(self.role, {}).get('permissions', [])]: the inner dict is
    the record [RoleInfo]; the default [{}] has no ['permissions'] key, so
    the second [get] falls back to the empty list. *)
Definition role_permissions (r : string) : list string :=
  match dict_get r ROLES with
  | Some info => permissions info
  | None => []
  end.

Definition has_permission (self : User) (permission : string) : bool :=
  bool_decide (permission ∈ role_permissions (role self)).

Definition get_role_name (self : User) : string :=
  match dict_get (role self) ROLES with
  | Some info => name info
  | None => "Desconocido"
  end.

(** ** Exceptions, and computations that carry a state and may raise *)

Inductive exn :=
  | KeyError (key : string)
  | ValueError (msg : string)
  | TypeError
  | AttributeError
  | IntegrityError.

Inductive outcome (A : Type) :=
  | Returns (a : A)
  | Raises (e : exn).
Arguments Returns {A} a.
Arguments Raises {A} e.

Definition M (S A : Type) : Type := S → outcome A * S.

Global Instance M_ret {S} : MRet (M S) := λ A a s, (Returns a, s).

Global Instance M_bind {S} : MBind (M S) := λ A B k m s,
  match m s with
  | (Returns a, s') => k a s'
  | (Raises e, s') => (Raises e, s')
  end.

Definition raise {S A} (e : exn) : M S A := λ s, (Raises e, s).

(** [try: body except ...: handler e]; the handler starts from the state
    the body had reached when it raised. *)
Definition try_except {S A} (body : M S A) (handler : exn → M S A) : M S A := λ s,
  match body s with
  | (Returns a, s') => (Returns a, s')
  | (Raises e, s') => handler e s'
  end.

Definition gets {S A} (f : S → A) : M S A := λ s, (Returns (f s), s).
Definition modify {S} (f : S → S) : M S unit := λ s, (Returns tt, f s).

(** ** The user store: the table [usuarios] behind a psycopg2 connection *)

(** One row of [usuarios]. The column [created_at] is left out: only
    [get_all_users] and [get_user_profile] read it. *)
Module Usuario.
Record t := mk {
  id : Z;
  username : string;
  email : string;
  password_hash : string;
  role : string;
  activo : bool;
  last_login : option Z
}.
End Usuario.

(** The store: the rows in the order a scan returns them, and the next
    value of the generated [id]. *)
Record DB := mkDB { usuarios : list Usuario.t; usuarios_id_seq : Z }.

(** An open connection: the committed store, the store as the open
    transaction sees it, and the rows the cursor still has to hand out. *)
Record Conn := mkConn { committed : DB; working : DB; cursor : list Usuario.t }.

Definition get_db_connection (db : DB) : Conn :=
  {| committed := db; working := db; cursor := [] |}.

(** A function of [auth.py] that opens its own connection: what it leaves
    in the store is what it committed. *)
Definition with_db {A} (body : M Conn A) : M DB A := λ db,
  let '(r, conn) := body (get_db_connection db) in (r, committed conn).

Definition commit : M Conn unit :=
  modify (λ c, {| committed := working c; working := working c; cursor := cursor c |}).

Definition rollback : M Conn unit :=
  modify (λ c, {| committed := committed c; working := committed c; cursor := cursor c |}).

(** [cur.close(); conn.close()]: whatever was not committed is dropped. *)
Definition close : M Conn unit :=
  modify (λ c, {| committed := committed c; working := committed c; cursor := [] |}).

(** [cur.fetchone()] *)
Definition fetchone : M Conn (option Usuario.t) := λ c,
  (Returns (head (cursor c)),
   {| committed := committed c; working := working c; cursor := tail (cursor c) |}).

(** The SQL statements of [auth.py], with their parameters. *)
Inductive sql :=
  (** [SELECT id, username, email, role FROM usuarios WHERE id = %s] *)
  | SELECT_by_id (user_id : Z)
  (** [SELECT id, username, email, role, password_hash FROM usuarios
       WHERE (username = %s OR email = %s) AND activo = true] *)
  | SELECT_login (username_or_email : string)
  (** [INSERT INTO usuarios (username, email, password_hash, role, activo)
       VALUES (%s, %s, %s, %s, true) RETURNING id] *)
  | INSERT_usuario (username email password_hash role : string)
  (** [UPDATE usuarios SET password_hash = %s WHERE id = %s] *)
  | UPDATE_password_hash (password_hash : string) (user_id : Z)
  (** [UPDATE usuarios SET activo = NOT activo WHERE id = %s] *)
  | UPDATE_toggle_activo (user_id : Z)
  (** [UPDATE usuarios SET role = %s WHERE id = %s] *)
  | UPDATE_role (new_role : string) (user_id : Z)
  (** [UPDATE usuarios SET last_login = CURRENT_TIMESTAMP WHERE id = %s] *)
  | UPDATE_last_login (now : Z) (user_id : Z).

(** [UPDATE usuarios SET ... WHERE id = %s] *)
Definition update_where_id (user_id : Z) (f : Usuario.t → Usuario.t) (rows : list Usuario.t) : list Usuario.t :=
  (λ r, if decide (Usuario.id r = user_id) then f r else r) <$> rows.

Definition set_password_hash (h : string) (r : Usuario.t) : Usuario.t :=
  Usuario.mk (Usuario.id r) (Usuario.username r) (Usuario.email r) h (Usuario.role r) (Usuario.activo r) (Usuario.last_login r).
Definition toggle_activo (r : Usuario.t) : Usuario.t :=
  Usuario.mk (Usuario.id r) (Usuario.username r) (Usuario.email r) (Usuario.password_hash r) (Usuario.role r)
         (negb (Usuario.activo r)) (Usuario.last_login r).
Definition set_role (new_role : string) (r : Usuario.t) : Usuario.t :=
  Usuario.mk (Usuario.id r) (Usuario.username r) (Usuario.email r) (Usuario.password_hash r) new_role
         (Usuario.activo r) (Usuario.last_login r).
Definition set_last_login (now : Z) (r : Usuario.t) : Usuario.t :=
  Usuario.mk (Usuario.id r) (Usuario.username r) (Usuario.email r) (Usuario.password_hash r) (Usuario.role r)
         (Usuario.activo r) (Some now).

(** The [WHERE] clause of the login query. *)
Definition login_match (x : string) (r : Usuario.t) : Prop :=
  (Usuario.username r = x ∨ Usuario.email r = x) ∧ Usuario.activo r = true.

Global Instance login_match_dec x r : Decision (login_match x r) :=
  ltac:(unfold login_match; apply _).

(** Modelled from the spec: the table's declaration is not part of the
    source. Following the spec (section 6), [username] and [email] are each
    unique, so an insert that repeats one of them raises psycopg2's
    [IntegrityError] and changes nothing; the store generates the [id];
    [last_login] starts as NULL. *)
Definition insert_usuario (username email password_hash role : string) : M Conn unit := λ c,
  let db := working c in
  if bool_decide (username ∈ Usuario.username <$> usuarios db ∨ email ∈ Usuario.email <$> usuarios db)
  then (Raises IntegrityError, c)
  else
    let r := Usuario.mk (usuarios_id_seq db) username email password_hash role true None in
    (Returns tt,
     {| committed := committed c;
        working := {| usuarios := usuarios db ++ [r]; usuarios_id_seq := usuarios_id_seq db + 1 |};
        cursor := [r] |}).

Definition update_rows (f : list Usuario.t → list Usuario.t) : M Conn unit :=
  modify (λ c, {| committed := committed c;
                  working := {| usuarios := f (usuarios (working c));
                                usuarios_id_seq := usuarios_id_seq (working c) |};
                  cursor := [] |}).

Definition select_rows (P : Usuario.t → Prop) `{∀ r, Decision (P r)} : M Conn unit :=
  modify (λ c, {| committed := committed c; working := working c;
                  cursor := filter P (usuarios (working c)) |}).

(** [cur.execute(statement, params)] *)
Definition execute (q : sql) : M Conn unit :=
  match q with
  | SELECT_by_id user_id => select_rows (λ r, Usuario.id r = user_id)
  | SELECT_login x => select_rows (login_match x)
  | INSERT_usuario username email password_hash role =>
      insert_usuario username email password_hash role
  | UPDATE_password_hash h user_id => update_rows (update_where_id user_id (set_password_hash h))
  | UPDATE_toggle_activo user_id => update_rows (update_where_id user_id toggle_activo)
  | UPDATE_role new_role user_id => update_rows (update_where_id user_id (set_role new_role))
  | UPDATE_last_login now user_id => update_rows (update_where_id user_id (set_last_login now))
  end.

(** ** Password hashing (werkzeug.security)

    [generate_password_hash] draws a random salt; the salt is made an
    argument. *)
Class PasswordHasher := {
  generate_password_hash : string → string → string;
  check_password_hash : string → string → bool
}.

(** A hasher to run examples with: the stored string is the password
    behind a fixed tag. *)
Definition plain_hasher : PasswordHasher := {|
  generate_password_hash := λ _ password, "plain$" +:+ password;
  check_password_hash := λ pwhash password, bool_decide (pwhash = "plain$" +:+ password)
|}.

(** ** The functions of [auth.py] over the store *)

(** [User(user_data['id'], user_data['username'], user_data['email'],
    user_data['role'])] *)
Definition principal (user_data : Usuario.t) : User :=
  mkUser (Usuario.id user_data) (Usuario.username user_data) (Usuario.email user_data) (Usuario.role user_data).

Definition load_user (user_id : Z) : M DB (option User) :=
  with_db (
    _ ← execute (SELECT_by_id user_id);
    user_data ← fetchone;
    _ ← close;
    match user_data with
    | Some row => mret (Some (principal row))
    | None => mret None
    end).

Definition invalid_role : exn :=
  ValueError ("Rol inválido. Debe ser uno de: " +:+ join ", " (dict_keys ROLES)).

Section WithHasher.
Context `{PasswordHasher}.

Definition authenticate_user (username_or_email password : string) : M DB (option User) :=
  with_db (
    _ ← execute (SELECT_login username_or_email);
    user_data ← fetchone;
    _ ← close;
    match user_data with
    | Some row =>
        if check_password_hash (Usuario.password_hash row) password
        then mret (Some (principal row))
        else mret None
    | None => mret None
    end).

(** [role] has the default ['viewer'] in the source. *)
Definition create_user (salt : string) (username email password role : string) : M DB Z :=
  if negb (dict_mem role ROLES) then raise invalid_role
  else
    let password_hash := generate_password_hash salt password in
    with_db (
      try_except
        (_ ← execute (INSERT_usuario username email password_hash role);
         returning ← fetchone;
         match returning with
         | Some row => _ ← commit; _ ← close; mret (Usuario.id row)
         | None => raise TypeError
         end)
        (λ e, match e with
              | IntegrityError =>
                  _ ← rollback; _ ← close;
                  raise (ValueError "El username o email ya existe")
              | _ => raise e
              end)).

Definition update_user_password (salt : string) (user_id : Z) (new_password : string) : M DB unit :=
  let password_hash := generate_password_hash salt new_password in
  with_db (
    _ ← execute (UPDATE_password_hash password_hash user_id);
    _ ← commit;
    close).
End WithHasher.

Definition toggle_user_status (user_id : Z) : M DB unit :=
  with_db (
    _ ← execute (UPDATE_toggle_activo user_id);
    _ ← commit;
    close).

Definition update_user_role (user_id : Z) (new_role : string) : M DB unit :=
  if negb (dict_mem new_role ROLES) then raise invalid_role
  else
    with_db (
      _ ← execute (UPDATE_role new_role user_id);
      _ ← commit;
      close).

(** [now] is the store's [CURRENT_TIMESTAMP]. *)
Definition update_last_login (now : Z) (user_id : Z) : M DB unit :=
  with_db (
    _ ← execute (UPDATE_last_login now user_id);
    _ ← commit;
    close).

(** ** The request context and the guards *)

(** [url_for(endpoint)]: the routes are the application's, so the URL
    stays symbolic. *)
Inductive url := url_for (endpoint : string).

Inductive response :=
  | redirect (location : url)
  | unauthorized
  | page (body : string).

(** What a request carries: the principal Flask-Login resolved, if any,
    and the flashed messages, each with its category. *)
Record Ctx := mkCtx { current_user : option User; flashes : list (string * string) }.

Definition flash (message category : string) : M Ctx unit :=
  modify (λ c, {| current_user := current_user c;
                  flashes := flashes c ++ [(category, message)] |}).

(** A view function, called with [*args, **kwargs]. *)
Definition view (Args : Type) : Type := Args → M Ctx response.

(** Flask-Login's [login_required]: without a principal the view is not
    entered. *)
Definition login_required {Args} (f : view Args) : view Args := λ args,
  cu ← gets current_user;
  match cu with
  | Some _ => f args
  | None => mret unauthorized
  end.

(** An attribute of [current_user] that only [User] has. *)
Definition the_current_user : M Ctx User :=
  cu ← gets current_user;
  match cu with
  | Some u => mret u
  | None => raise AttributeError
  end.

(** [d[k]] *)
Definition dict_index {S V} (k : string) (d : dict V) : M S V :=
  match dict_get k d with
  | Some v => mret v
  | None => raise (KeyError k)
  end.

Definition permission_required {Args} (permission : string) (f : view Args) : view Args :=
  login_required (λ args,
    u ← the_current_user;
    if negb (has_permission u permission) then
      _ ← flash ("⛔ No tienes permiso para realizar esta acción. Se requiere: " +:+ permission)
                "error";
      mret (redirect (url_for "index"))
    else f args).

Definition role_required {Args} (required : string) (f : view Args) : view Args :=
  login_required (λ args,
    u ← the_current_user;
    if bool_decide (role u ≠ required) && bool_decide (role u ≠ "admin") then
      info ← dict_index required ROLES;
      _ ← flash ("⛔ Se requiere rol de " +:+ name info) "error";
      mret (redirect (url_for "index"))
    else f args).

(** ** Statements and example stores *)

(** "[authenticate_user] returns a principal if and only if exactly one
    active record matches the identifier and the password verifies against
    that record's hash." *)
Definition authenticates_iff_unique_match `{PasswordHasher}
    (db : DB) (username_or_email password : string) : Prop :=
  (∃ u, authenticate_user username_or_email password db = (Returns (Some u), db)) ↔
  (∃ row, filter (login_match username_or_email) (usuarios db) = [row] ∧
          check_password_hash (Usuario.password_hash row) password = true).

(** [row] is the first active row of the store, in scan order, whose
    username or email is [x]. *)
Definition first_login_match (x : string) (db : DB) (row : Usuario.t) : Prop :=
  ∃ before after,
    usuarios db = before ++ row :: after ∧ login_match x row ∧
    Forall (λ r, ¬ login_match x r) before.

(** Two active users: the first took as username the address that is the
    second one's email. *)
Definition beto_row : Usuario.t :=
  Usuario.mk 1 "beto@x.com" "beto@correo.com" "plain$pw1" "viewer" true None.
Definition berta_row : Usuario.t :=
  Usuario.mk 2 "berta" "beto@x.com" "plain$pw2" "editor" true None.
Definition two_matches_db : DB := mkDB [beto_row; berta_row] 3.

(** One user of each kind the properties talk about. *)
Definition carla_row : Usuario.t :=
  Usuario.mk 5 "carla" "carla@x.com" "plain$secreto" "editor" true (Some 1700000000).
Definition dario_row : Usuario.t :=
  Usuario.mk 6 "dario" "dario@x.com" "plain$clave" "viewer" false None.
Definition small_db : DB := mkDB [carla_row; dario_row] 7.

(** What the table's constraints keep true of a store: ids, usernames and
    emails are each unique, and the id generator is ahead of every id. *)
Definition store_ok (db : DB) : Prop :=
  NoDup (Usuario.id <$> usuarios db) ∧
  NoDup (Usuario.username <$> usuarios db) ∧
  NoDup (Usuario.email <$> usuarios db) ∧
  Forall (λ r, Usuario.id r < usuarios_id_seq db) (usuarios db).

(** ** The remaining functions of [auth.py] *)

(** [SELECT password_hash FROM usuarios WHERE id = %s] *)
Definition SELECT_password_hash (user_id : Z) : M Conn unit :=
  select_rows (λ r, Usuario.id r = user_id).

Definition update_own_password `{PasswordHasher} (salt : string) (user_id : Z)
    (current_password new_password : string) : M DB bool :=
  with_db (
    _ ← SELECT_password_hash user_id;
    user_data ← fetchone;
    match user_data with
    | None => _ ← close; raise (ValueError "Usuario no encontrado")
    | Some row =>
        if negb (check_password_hash (Usuario.password_hash row) current_password) then
          _ ← close; raise (ValueError "Contraseña actual incorrecta")
        else
          let password_hash := generate_password_hash salt new_password in
          _ ← execute (UPDATE_password_hash password_hash user_id);
          _ ← commit;
          _ ← close;
          mret true
    end).

(** The dict rows of the two listing queries, with the columns
    [id, username, email, role, activo, created_at, last_login]. *)
Module Profile.
Record t := mk {
  id : Z;
  username : string;
  email : string;
  role : string;
  activo : bool;
  created_at : Z;
  last_login : option Z
}.
End Profile.


Section Listing.
(** Modelled from the spec: the column [created_at] is not a field of
    [Usuario.t]. No statement of [auth.py] writes it (the table fills it in when
    the row is inserted), so it is taken as a function from a row's id to
    the time the table recorded for it. *)
Variable created_at : Z → Z.


(** [ORDER BY created_at DESC]: newest first. SQL leaves the order of rows
    with equal [created_at] open; the sort used here keeps them in scan
    order. *)
Definition newer_first (r1 r2 : Usuario.t) : Prop :=
  created_at (Usuario.id r2) ≤ created_at (Usuario.id r1).

Global Instance newer_first_dec r1 r2 : Decision (newer_first r1 r2) :=
  ltac:(unfold newer_first; apply _).



End Listing.

(** [s.startswith(old)] *)
Fixpoint starts_with (old s : string) : bool :=
  match old, s with
  | EmptyString, _ => true
  | String a old', String b s' => bool_decide (a = b) && starts_with old' s'
  | String _ _, EmptyString => false
  end.

(** [s.replace(old, '')] for a non-empty [old]: the occurrences of [old],
    found from left to right without overlap, are taken out. [skip] is the
    number of characters of the occurrence being removed that are still to
    be dropped. *)
Fixpoint remove_all (old : string) (skip : nat) (s : string) : string :=
  match s with
  | EmptyString => EmptyString
  | String c s' =>
      match skip with
      | S k => remove_all old k s'
      | O => if starts_with old s
             then remove_all old (String.length old - 1) s'
             else String c (remove_all old 0 s')
      end
  end.

(** What [get_db_connection] hands to [psycopg2.connect]:
    [DATABASE_URL.replace('&channel_binding=require', '')], where
    [os.getenv] answers [None] for a variable that is not set, and [None] has
    no [replace]. *)
Definition db_url_clean (DATABASE_URL : option string) : outcome string :=
  match DATABASE_URL with
  | None => Raises AttributeError
  | Some url => Returns (remove_all "&channel_binding=require" 0 url)
  end.

(** [old] occurs in [s]. *)
Definition occurs_in (old s : string) : Prop := ∃ a b, s = a +:+ old +:+ b.

(** * Properties *)

(** ** Facts about dictionaries *)

Lemma dict_get_None {V} (k : string) (d : dict V) :
  dict_get k d = None ↔ k ∉ dict_keys d.
Proof.
  induction d as [|[k' v] d IH]; simpl.
  - split; [intros _; apply not_elem_of_nil | done].
  - rewrite not_elem_of_cons. case_decide as Hk; simplify_eq.
    + split; [done | intros [? _]; done].
    + rewrite IH. split; [intros ?; split; [congruence | done] | intros [_ ?]; done].
Qed.

Lemma dict_mem_false {V} (k : string) (d : dict V) :
  dict_mem k d = false ↔ dict_get k d = None.
Proof.
  unfold dict_mem. rewrite dict_get_None.
  split; [apply bool_decide_eq_false_1 | apply bool_decide_eq_false_2].
Qed.

Lemma dict_mem_true {V} (k : string) (d : dict V) :
  dict_mem k d = true ↔ is_Some (dict_get k d).
Proof.
  rewrite <- not_eq_None_Some, <- dict_mem_false.
  destruct (dict_mem k d); split; congruence.
Qed.

(** ** The registry *)

(** C4: a user whose role is not in the registry has no permission at
    all, whatever the permission asked for, and [get_role_name] answers the
    sentinel ['Desconocido']; both functions are total, so neither lookup
    raises. *)
Theorem unknown_role_fails_closed (u : User) (q : string) :
  dict_mem (role u) ROLES = false →
  has_permission u q = false ∧ role_permissions (role u) = [] ∧
  get_role_name u = "Desconocido".
Proof.
  intros Hr%dict_mem_false.
  unfold has_permission, role_permissions, get_role_name. rewrite Hr.
  split_and!; [| done | done].
  apply bool_decide_eq_false_2, not_elem_of_nil.
Qed.

Lemma unknown_role_fails_closed_witness :
  has_permission (mkUser 7 "eve" "eve@x.com" "manager") "view" = false ∧
  role_permissions "manager" = [] ∧
  get_role_name (mkUser 7 "eve" "eve@x.com" "manager") = "Desconocido".
Proof.
  apply (unknown_role_fails_closed (mkUser 7 "eve" "eve@x.com" "manager") "view").
  vm_compute. reflexivity.
Defined.

(** Closed decidable facts are settled by evaluation. *)
Ltac by_compute := apply (bool_decide_unpack _); vm_compute; exact I.

Lemma ROLES_keys_NoDup : NoDup (dict_keys ROLES).
Proof. by_compute. Qed.

Lemma list_strict_subset (l k : list string) (x : string) :
  l ⊆ k → x ∈ k → x ∉ l → l ⊂ k.
Proof. intros Hsub Hin Hnot. split; [done | intros Hk; apply Hnot, Hk, Hin]. Qed.

(** C5: the registry holds exactly the roles viewer, editor_v2, editor and
    admin; their permission sets grow strictly along that chain, and none
    of them is empty. *)
Theorem ROLES_chain :
  dict_keys ROLES = ["viewer"; "editor_v2"; "editor"; "admin"] ∧
  (∀ r, dict_mem r ROLES = true ↔ r ∈ ["viewer"; "editor_v2"; "editor"; "admin"]) ∧
  role_permissions "viewer" ⊂ role_permissions "editor_v2" ∧
  role_permissions "editor_v2" ⊂ role_permissions "editor" ∧
  role_permissions "editor" ⊂ role_permissions "admin" ∧
  Forall (λ r, role_permissions r ≠ []) (dict_keys ROLES).
Proof.
  split_and!.
  - reflexivity.
  - intros r. unfold dict_mem. apply bool_decide_eq_true.
  - apply (list_strict_subset _ _ "edit"); by_compute.
  - apply (list_strict_subset _ _ "delete"); by_compute.
  - apply (list_strict_subset _ _ "manage_users"); by_compute.
  - repeat constructor; discriminate.
Qed.

(** ** The guards *)

Section Guards.
Context {Args : Type}.
Implicit Types (f g : view Args) (args : Args) (p : User).
Implicit Types (fl : list (string * string)) (q r : string).

Lemma login_required_anonymous f args fl :
  login_required f args (mkCtx None fl) = (Returns unauthorized, mkCtx None fl).
Proof. reflexivity. Qed.

Lemma permission_required_allowed q f args p fl :
  has_permission p q = true →
  permission_required q f args (mkCtx (Some p) fl) = f args (mkCtx (Some p) fl).
Proof.
  intros Hq. unfold permission_required, login_required, mbind, M_bind; simpl.
  rewrite Hq; simpl. by destruct (f args _) as [[]].
Qed.

Lemma permission_required_denied q f args p fl :
  has_permission p q = false →
  permission_required q f args (mkCtx (Some p) fl) =
    (Returns (redirect (url_for "index")),
     mkCtx (Some p)
       (fl ++ [("error",
                "⛔ No tienes permiso para realizar esta acción. Se requiere: " +:+ q)])).
Proof.
  intros Hq. unfold permission_required, login_required, mbind, M_bind; simpl.
  by rewrite Hq.
Qed.

Lemma role_required_allowed r f args p fl :
  role p = r ∨ role p = "admin" →
  role_required r f args (mkCtx (Some p) fl) = f args (mkCtx (Some p) fl).
Proof.
  intros Hr. unfold role_required, login_required, mbind, M_bind; simpl.
  assert (bool_decide (role p ≠ r) && bool_decide (role p ≠ "admin") = false) as ->.
  { apply andb_false_iff.
    destruct Hr; [left | right]; by apply bool_decide_eq_false_2; intros ?. }
  by destruct (f args _) as [[]].
Qed.

Lemma role_required_denied r info f args p fl :
  role p ≠ r → role p ≠ "admin" → dict_get r ROLES = Some info →
  role_required r f args (mkCtx (Some p) fl) =
    (Returns (redirect (url_for "index")),
     mkCtx (Some p) (fl ++ [("error", "⛔ Se requiere rol de " +:+ name info)])).
Proof.
  intros Hr Ha Hinfo. unfold role_required, login_required, mbind, M_bind; simpl.
  rewrite !bool_decide_eq_true_2 by done; simpl.
  unfold dict_index. by rewrite Hinfo.
Qed.

Lemma role_required_KeyError r f args p fl :
  role p ≠ r → role p ≠ "admin" → dict_get r ROLES = None →
  role_required r f args (mkCtx (Some p) fl) = (Raises (KeyError r), mkCtx (Some p) fl).
Proof.
  intros Hr Ha Hinfo. unfold role_required, login_required, mbind, M_bind; simpl.
  rewrite !bool_decide_eq_true_2 by done; simpl.
  unfold dict_index. by rewrite Hinfo.
Qed.

(** When the role check fails, what the wrapper does is the same for
    every view: the view is not entered. *)
Lemma role_required_refused_any_view r f g args p fl :
  role p ≠ r → role p ≠ "admin" →
  role_required r f args (mkCtx (Some p) fl) = role_required r g args (mkCtx (Some p) fl).
Proof.
  intros Hr Ha. destruct (dict_get r ROLES) as [info|] eqn:Hinfo.
  - by rewrite !(role_required_denied r info).
  - by rewrite !role_required_KeyError.
Qed.

(** The wrapper behaves as the view it protects, for every view, exactly
    when the principal has the required role or is an admin. *)
Lemma role_required_invokes_iff r args p fl :
  (∀ f, role_required r f args (mkCtx (Some p) fl) = f args (mkCtx (Some p) fl))
  ↔ role p = r ∨ role p = "admin".
Proof.
  split; [| intros Hr f; by apply role_required_allowed].
  intros Hall.
  destruct (decide (role p = r)) as [|Hr]; [by left |].
  destruct (decide (role p = "admin")) as [|Ha]; [by right |].
  pose proof (Hall (λ _, mret (page "a"))) as Ha1.
  pose proof (Hall (λ _, mret (page "b"))) as Hb1.
  rewrite (role_required_refused_any_view r _ (λ _, mret (page "b"))) in Ha1 by done.
  rewrite Ha1 in Hb1. discriminate Hb1.
Qed.

(** C3: for an authenticated principal [p], the wrapper made by
    [permission_required q] runs the view and hands back its result
    unchanged when [q] is a permission of [p]'s role; otherwise the view is
    not run, the answer is a redirect to ['index'] and the flashed message
    ends with the missing permission [q]. A viewer is refused ['delete'],
    an editor is let through. *)
Theorem permission_required_guard q f args p fl :
  let ctx := mkCtx (Some p) fl in
  let refused q :=
    (Returns (redirect (url_for "index")),
     mkCtx (Some p)
       (fl ++ [("error",
                "⛔ No tienes permiso para realizar esta acción. Se requiere: " +:+ q)])) in
  (q ∈ role_permissions (role p) → permission_required q f args ctx = f args ctx) ∧
  (q ∉ role_permissions (role p) → permission_required q f args ctx = refused q) ∧
  (role p = "viewer" → permission_required "delete" f args ctx = refused "delete") ∧
  (role p = "editor" → permission_required "delete" f args ctx = f args ctx).
Proof.
  intros ctx refused. split_and!.
  - intros Hq. apply permission_required_allowed.
    by apply bool_decide_eq_true_2.
  - intros Hq. apply permission_required_denied.
    by apply bool_decide_eq_false_2.
  - intros Hp. apply permission_required_denied.
    unfold has_permission. by rewrite Hp.
  - intros Hp. apply permission_required_allowed.
    unfold has_permission. by rewrite Hp.
Qed.

(** C10: when [r] is not a key of [ROLES] and the principal's role is
    neither [r] nor ['admin'], the wrapper made by [role_required r] raises
    [KeyError r] while it builds the message: nothing is flashed and no
    redirect is returned. A principal whose role is ['admin'] (or [r]) goes
    through to the view, and [ROLES[r]] is never looked up. *)
Theorem role_required_unregistered_role r f args p fl :
  dict_mem r ROLES = false →
  let ctx := mkCtx (Some p) fl in
  (role p ≠ r → role p ≠ "admin" →
   role_required r f args ctx = (Raises (KeyError r), ctx)) ∧
  (role p = r ∨ role p = "admin" → role_required r f args ctx = f args ctx).
Proof.
  intros Hr%dict_mem_false ctx. split.
  - intros ??. by apply role_required_KeyError.
  - apply role_required_allowed.
Qed.
End Guards.

(** C2: on the decorator [role_required('manager')], a role that [ROLES]
    does not have, a signed-in viewer is neither let through nor redirected:
    the wrapper raises [KeyError 'manager'] and flashes nothing. *)
Theorem role_required_manager_viewer_raises {Args} (f : view Args) (args : Args) :
  let ana := mkUser 1 "ana" "ana@x.com" "viewer" in
  role_required "manager" f args (mkCtx (Some ana) []) =
    (Raises (KeyError "manager"), mkCtx (Some ana) []).
Proof. reflexivity. Qed.

Lemma role_required_unregistered_role_witness :
  dict_mem "manager" ROLES = false ∧
  role_required "manager" (λ _ : unit, mret (page "panel")) tt
    (mkCtx (Some (mkUser 1 "ana" "ana@x.com" "viewer")) []) =
  (Raises (KeyError "manager"), mkCtx (Some (mkUser 1 "ana" "ana@x.com" "viewer")) []).
Proof.
  split; [reflexivity |].
  apply (role_required_unregistered_role "manager" (λ _ : unit, mret (page "panel")) tt
           (mkUser 1 "ana" "ana@x.com" "viewer") []); [reflexivity | discriminate | discriminate].
Defined.

(** ** The store: what each function computes *)

Lemma load_user_eq user_id db :
  load_user user_id db =
    (Returns (principal <$> head (filter (λ r, Usuario.id r = user_id) (usuarios db))), db).
Proof.
  unfold load_user, with_db, mbind, M_bind; simpl.
  by destruct (head _).
Qed.

Lemma toggle_user_status_eq user_id db :
  toggle_user_status user_id db =
    (Returns tt, mkDB (update_where_id user_id toggle_activo (usuarios db)) (usuarios_id_seq db)).
Proof. reflexivity. Qed.

Lemma update_last_login_eq now user_id db :
  update_last_login now user_id db =
    (Returns tt, mkDB (update_where_id user_id (set_last_login now) (usuarios db))
                      (usuarios_id_seq db)).
Proof. reflexivity. Qed.

Lemma filter_none {A} (P : A → Prop) `{∀ x, Decision (P x)} (l : list A) :
  Forall (λ x, ¬ P x) l → filter P l = [].
Proof.
  induction 1 as [|x l Hx _ IH]; [done |].
  by rewrite filter_cons_False.
Qed.

Lemma head_filter_Some {A} (P : A → Prop) `{∀ x, Decision (P x)} (l : list A) (x : A) :
  head (filter P l) = Some x ↔
  ∃ before after, l = before ++ x :: after ∧ P x ∧ Forall (λ y, ¬ P y) before.
Proof.
  induction l as [|y l IH].
  - split; [done | intros ([|??] & ? & ? & _); done].
  - destruct (decide (P y)) as [Hy|Hy].
    + rewrite filter_cons_True by done. simpl. split.
      * intros [= ->]. exists [], l. by repeat split.
      * intros ([|z before] & after & Heq & Hx & Hbefore); simplify_eq/=; [done |].
        by apply Forall_cons in Hbefore as [? _].
    + rewrite filter_cons_False by done. rewrite IH. split.
      * intros (before & after & -> & Hx & Hbefore).
        exists (y :: before), after. repeat split; [done | by constructor].
      * intros ([|z before] & after & Heq & Hx & Hbefore); simplify_eq/=; [done |].
        apply Forall_cons in Hbefore as [_ ?]. by exists before, after.
Qed.

Lemma filter_id_unique (rows : list Usuario.t) (row : Usuario.t) :
  NoDup (Usuario.id <$> rows) → row ∈ rows →
  filter (λ r, Usuario.id r = Usuario.id row) rows = [row].
Proof.
  induction rows as [|r rows IH]; [by intros _ ?%elem_of_nil |].
  rewrite fmap_cons, NoDup_cons. intros [Hr Hnd] [->|Hin]%elem_of_cons.
  - rewrite filter_cons_True by done. f_equal.
    apply filter_none, Forall_forall. intros r' Hr' Heq.
    apply Hr. rewrite <- Heq. by apply list_elem_of_fmap_2.
  - rewrite filter_cons_False; [by apply IH |].
    intros Heq. apply Hr. rewrite Heq. by apply list_elem_of_fmap_2.
Qed.

Section Store.
Context `{PasswordHasher}.
Implicit Types (db : DB) (row : Usuario.t) (x password : string) (u : User).

Lemma authenticate_user_eq x password db :
  authenticate_user x password db =
    (Returns (row ← head (filter (login_match x) (usuarios db));
              if check_password_hash (Usuario.password_hash row) password
              then Some (principal row) else None),
     db).
Proof.
  unfold authenticate_user, with_db, mbind at 1 2 3, M_bind; simpl.
  destruct (head _) as [row|]; simpl; [| done].
  by destruct (check_password_hash _ _).
Qed.

(** Whoever [authenticate_user] returns is an active row of the store. *)
Lemma authenticate_user_active x password db u :
  authenticate_user x password db = (Returns (Some u), db) →
  ∃ row, row ∈ usuarios db ∧ Usuario.activo row = true ∧ u = principal row.
Proof.
  rewrite authenticate_user_eq. intros [= Hres].
  destruct (head _) as [row|] eqn:Hhead; simpl in Hres; [| done].
  destruct (check_password_hash _ _); simplify_eq.
  apply head_filter_Some in Hhead as (before & after & Hrows & [_ Hact] & _).
  exists row. split_and!; [| done | done].
  rewrite Hrows. apply elem_of_app. right. apply elem_of_cons. by left.
Qed.
End Store.

Section StoreClaims.
Context `{PasswordHasher}.
Implicit Types (db : DB) (row : Usuario.t) (x password : string) (u : User).

(** C1, as the code has it: [authenticate_user] never raises and never
    writes; it returns a principal exactly when some active record has the
    identifier as its username or as its email (exact string equality) and
    the password verifies against the hash of the first such record in scan
    order, and the principal is built from that record. Otherwise it
    returns [None], whatever the reason. With no active match the result is
    [None]; with exactly one, success is the password check on it. *)
Theorem authenticate_user_first_match x password db :
  ∃ result,
    authenticate_user x password db = (Returns result, db) ∧
    (∀ u, result = Some u ↔
          ∃ row, first_login_match x db row ∧
                 check_password_hash (Usuario.password_hash row) password = true ∧
                 u = principal row) ∧
    (Forall (λ r, ¬ login_match x r) (usuarios db) → result = None) ∧
    (∀ row, filter (login_match x) (usuarios db) = [row] →
            result = if check_password_hash (Usuario.password_hash row) password
                     then Some (principal row) else None).
Proof.
  eexists. split; [apply authenticate_user_eq |]. split_and!.
  - intros u. split.
    + destruct (head _) as [row|] eqn:Hhead; simpl; [| done].
      destruct (check_password_hash _ _) eqn:Hchk; [| done].
      intros [= <-]. exists row. split_and!; [| done | done].
      by apply (head_filter_Some (login_match x)).
    + intros (row & Hfirst & Hchk & ->).
      apply (head_filter_Some (login_match x)) in Hfirst.
      rewrite Hfirst. simpl. by rewrite Hchk.
  - intros Hnone. by rewrite filter_none.
  - by intros row ->.
Qed.

(** C8: [authenticate_user] returns normally and leaves the store as it
    found it, [last_login] included; a principal it returns is made of the
    [id], [username], [email] and [role] of a row of the store and of
    nothing else. Recording the login is the separate call
    [update_last_login], which does write. *)
Theorem authenticate_user_read_only x password db :
  (∃ result,
     authenticate_user x password db = (Returns result, db) ∧
     ∀ u, result = Some u →
          ∃ row, row ∈ usuarios db ∧
                 u = mkUser (Usuario.id row) (Usuario.username row) (Usuario.email row) (Usuario.role row)) ∧
  (∀ now user_id,
     update_last_login now user_id db =
       (Returns tt,
        mkDB ((λ r, if decide (Usuario.id r = user_id) then set_last_login now r else r)
                <$> usuarios db)
             (usuarios_id_seq db))).
Proof.
  split; [| done].
  eexists. split; [apply authenticate_user_eq |].
  intros u Hu.
  destruct (authenticate_user_active x password db u) as (row & ? & _ & ?).
  - by rewrite authenticate_user_eq, Hu.
  - by exists row.
Qed.
End StoreClaims.

(** C1, as the claim has it, fails: the identifier ["beto@x.com"] is the
    username of one active user and the email of another, so two active
    records match; [authenticate_user] still returns the first one when the
    password is that user's. The store meets the table's constraints. *)
Lemma authenticate_user_two_matches :
  store_ok two_matches_db ∧
  authenticate_user (H := plain_hasher) "beto@x.com" "pw1" two_matches_db =
    (Returns (Some (mkUser 1 "beto@x.com" "beto@correo.com" "viewer")), two_matches_db) ∧
  filter (login_match "beto@x.com") (usuarios two_matches_db) = [beto_row; berta_row] ∧
  ¬ authenticates_iff_unique_match (H := plain_hasher) two_matches_db "beto@x.com" "pw1".
Proof.
  split_and!; [by_compute | reflexivity | reflexivity |].
  intros [Hunique _]. destruct Hunique as (row & Hrows & _); [by eexists | done].
Qed.

(** That store is what two calls of [create_user] leave behind, and in it
    the second user cannot log in by email: the first row that matches is the
    other user's. *)
Example two_matches_db_reachable :
  let db1 := mkDB [beto_row] 2 in
  create_user (H := plain_hasher) "s1" "beto@x.com" "beto@correo.com" "pw1" "viewer" (mkDB [] 1) =
    (Returns 1, db1) ∧
  create_user (H := plain_hasher) "s2" "berta" "beto@x.com" "pw2" "editor" db1 =
    (Returns 2, two_matches_db) ∧
  authenticate_user (H := plain_hasher) "beto@x.com" "pw2" two_matches_db =
    (Returns None, two_matches_db) ∧
  authenticate_user (H := plain_hasher) "berta" "pw2" two_matches_db =
    (Returns (Some (mkUser 2 "berta" "beto@x.com" "editor")), two_matches_db).
Proof. split_and!; reflexivity. Qed.

(** ** Creating users and changing roles *)

Lemma invalid_role_message :
  invalid_role =
    ValueError "Rol inválido. Debe ser uno de: viewer, editor_v2, editor, admin".
Proof. reflexivity. Qed.

Section Create.
Context `{PasswordHasher}.
Implicit Types (db : DB) (row : Usuario.t) (salt u e p r : string).

Lemma create_user_invalid_role salt u e p r db :
  dict_mem r ROLES = false → create_user salt u e p r db = (Raises invalid_role, db).
Proof. intros Hr. unfold create_user. by rewrite Hr. Qed.

Lemma create_user_duplicate salt u e p r db :
  dict_mem r ROLES = true →
  u ∈ Usuario.username <$> usuarios db ∨ e ∈ Usuario.email <$> usuarios db →
  create_user salt u e p r db = (Raises (ValueError "El username o email ya existe"), db).
Proof.
  intros Hr Hdup. unfold create_user. rewrite Hr. simpl.
  unfold with_db, try_except, mbind at 1 2, M_bind; simpl.
  unfold insert_usuario; simpl. by rewrite bool_decide_eq_true_2.
Qed.

Lemma create_user_fresh salt u e p r db :
  dict_mem r ROLES = true →
  u ∉ Usuario.username <$> usuarios db → e ∉ Usuario.email <$> usuarios db →
  create_user salt u e p r db =
    (Returns (usuarios_id_seq db),
     mkDB (usuarios db ++
             [Usuario.mk (usuarios_id_seq db) u e (generate_password_hash salt p) r true None])
          (usuarios_id_seq db + 1)).
Proof.
  intros Hr Hu He. unfold create_user. rewrite Hr. simpl.
  unfold with_db, try_except, mbind at 1 2, M_bind; simpl.
  unfold insert_usuario; simpl. rewrite bool_decide_eq_false_2; [done |].
  by intros [?|?].
Qed.

(** C6: with a hasher that accepts the password a hash was made from and
    no other, for a role of the registry and a store in which no record has
    [u] or [e] as its username or as its email, [create_user u e p r]
    succeeds, and afterwards [authenticate_user u p] and
    [authenticate_user e p] both return the principal with the new id and
    with username [u], email [e] and role [r], while [authenticate_user u p']
    returns [None] for every [p'] other than [p]. *)
Theorem create_then_authenticate salt u e p r db :
  (∀ s pw, check_password_hash (generate_password_hash s pw) pw = true) →
  (∀ s pw pw', pw ≠ pw' → check_password_hash (generate_password_hash s pw) pw' = false) →
  dict_mem r ROLES = true →
  (∀ row, row ∈ usuarios db →
          ¬ (Usuario.username row = u ∨ Usuario.email row = u) ∧
          ¬ (Usuario.username row = e ∨ Usuario.email row = e)) →
  ∃ user_id db',
    create_user salt u e p r db = (Returns user_id, db') ∧
    authenticate_user u p db' = (Returns (Some (mkUser user_id u e r)), db') ∧
    authenticate_user e p db' = (Returns (Some (mkUser user_id u e r)), db') ∧
    ∀ p', p' ≠ p → authenticate_user u p' db' = (Returns None, db').
Proof.
  intros Hsame Hother Hr Hfree.
  assert (∀ x, x = u ∨ x = e → Forall (λ row, ¬ login_match x row) (usuarios db)) as Hnone.
  { intros x Hx. apply Forall_forall. intros row [Hu He]%Hfree [Hm _].
    destruct Hx as [->| ->]; tauto. }
  eexists _, _. split.
  { apply create_user_fresh; [done | |].
    - intros (row & Hrow & [Hu _]%Hfree)%list_elem_of_fmap. apply Hu. by left.
    - intros (row & Hrow & [_ He]%Hfree)%list_elem_of_fmap. apply He. by right. }
  assert (∀ x, x = u ∨ x = e →
    filter (login_match x)
      (usuarios db ++
         [Usuario.mk (usuarios_id_seq db) u e (generate_password_hash salt p) r true None]) =
    [Usuario.mk (usuarios_id_seq db) u e (generate_password_hash salt p) r true None]) as Hfilter.
  { intros x Hx. rewrite filter_app, (filter_none _ _ (Hnone x Hx)). simpl.
    rewrite filter_cons_True; [done |]. split; [| done]. simpl.
    destruct Hx as [->| ->]; [by left | by right]. }
  split_and!.
  - rewrite authenticate_user_eq. simpl. rewrite Hfilter by (by left). simpl.
    by rewrite Hsame.
  - rewrite authenticate_user_eq. simpl. rewrite Hfilter by (by right). simpl.
    by rewrite Hsame.
  - intros p' Hp'. rewrite authenticate_user_eq. simpl.
    rewrite Hfilter by (by left). simpl. by rewrite Hother.
Qed.
End Create.

Lemma update_user_role_valid user_id r db :
  dict_mem r ROLES = true →
  update_user_role user_id r db =
    (Returns tt, mkDB (update_where_id user_id (set_role r) (usuarios db)) (usuarios_id_seq db)).
Proof. intros Hr. unfold update_user_role. by rewrite Hr. Qed.

(** C7: for a role outside the registry, [update_user_role] raises the
    [ValueError] whose message lists the valid roles, and the store is the
    one it started from; for a role of the registry it returns, and in the
    store it leaves every row with that id has the new role and is otherwise
    as before, and the other rows are untouched. *)
Theorem update_user_role_checks_role (user_id : Z) (r : string) (db : DB) :
  (dict_mem r ROLES = false →
   update_user_role user_id r db =
     (Raises (ValueError ("Rol inválido. Debe ser uno de: " +:+
                          join ", " ["viewer"; "editor_v2"; "editor"; "admin"])), db)) ∧
  (dict_mem r ROLES = true →
   ∃ db', update_user_role user_id r db = (Returns tt, db') ∧
          usuarios_id_seq db' = usuarios_id_seq db ∧
          ∀ (i : nat), usuarios db' !! i =
            (λ row, if decide (Usuario.id row = user_id)
                    then Usuario.mk (Usuario.id row) (Usuario.username row) (Usuario.email row)
                                (Usuario.password_hash row) r (Usuario.activo row)
                                (Usuario.last_login row)
                    else row) <$> usuarios db !! i).
Proof.
  split; intros Hr.
  - unfold update_user_role. by rewrite Hr.
  - eexists. split; [by apply update_user_role_valid |]. split; [done |].
    intros i. simpl. unfold update_where_id. by rewrite list_lookup_fmap.
Qed.

(** ** Session loading *)

Lemma update_where_id_elem (user_id : Z) (f : Usuario.t → Usuario.t) rows row' :
  (∀ r, Usuario.id (f r) = Usuario.id r) →
  row' ∈ update_where_id user_id f rows → Usuario.id row' = user_id →
  ∃ row, row ∈ rows ∧ Usuario.id row = user_id ∧ row' = f row.
Proof.
  intros Hf (row & -> & Hin)%list_elem_of_fmap Hid. exists row.
  case_decide as Hrow; [done |]. by destruct Hrow.
Qed.

Lemma update_where_id_ids (user_id : Z) (f : Usuario.t → Usuario.t) rows :
  (∀ r, Usuario.id (f r) = Usuario.id r) →
  Usuario.id <$> update_where_id user_id f rows = Usuario.id <$> rows.
Proof.
  intros Hf. unfold update_where_id. rewrite <- list_fmap_compose.
  apply list_fmap_ext. intros i r _. simpl. by case_decide.
Qed.

Lemma NoDup_ids_eq (rows : list Usuario.t) (r1 r2 : Usuario.t) :
  NoDup (Usuario.id <$> rows) → r1 ∈ rows → r2 ∈ rows → Usuario.id r1 = Usuario.id r2 → r1 = r2.
Proof.
  intros Hnd H1 H2 Heq.
  pose proof (filter_id_unique rows r2 Hnd H2) as Hf.
  assert (r1 ∈ filter (λ r, Usuario.id r = Usuario.id r2) rows) as Hin
    by by apply list_elem_of_filter.
  rewrite Hf in Hin. by apply list_elem_of_singleton in Hin.
Qed.

(** C9: when ids are unique in the store, [load_user] on the id of any row
    returns the principal of that row, role included, active or not. So
    after [toggle_user_status] has deactivated an active user, [load_user]
    still resolves the id to the same principal, whereas [authenticate_user]
    returns that user for no identifier and no password. *)
Theorem load_user_ignores_activo `{PasswordHasher} (db : DB) (row : Usuario.t) :
  NoDup (Usuario.id <$> usuarios db) → row ∈ usuarios db →
  load_user (Usuario.id row) db =
    (Returns (Some (mkUser (Usuario.id row) (Usuario.username row) (Usuario.email row) (Usuario.role row))),
     db) ∧
  ∃ db',
    toggle_user_status (Usuario.id row) db = (Returns tt, db') ∧
    (Usuario.activo row = true →
     load_user (Usuario.id row) db' =
       (Returns (Some (mkUser (Usuario.id row) (Usuario.username row) (Usuario.email row) (Usuario.role row))),
        db') ∧
     ∀ x password u,
       authenticate_user x password db' = (Returns (Some u), db') → id u ≠ Usuario.id row).
Proof.
  intros Hnd Hin. split.
  { rewrite load_user_eq. by rewrite filter_id_unique. }
  eexists. split; [apply toggle_user_status_eq |]. intros Hact.
  assert (∀ r, Usuario.id (toggle_activo r) = Usuario.id r) as Hid by done.
  split.
  - rewrite load_user_eq. simpl.
    rewrite (filter_id_unique _ (toggle_activo row)).
    + done.
    + by rewrite update_where_id_ids.
    + apply list_elem_of_fmap. exists row. split; [| done]. by rewrite decide_True.
  - intros x password u (row' & Hin' & Hact' & ->)%authenticate_user_active Hu.
    simpl in Hin', Hu.
    destruct (update_where_id_elem _ _ _ _ Hid Hin' Hu) as (row0 & Hin0 & Hid0 & ->).
    rewrite (NoDup_ids_eq _ _ _ Hnd Hin0 Hin Hid0) in Hact'.
    simpl in Hact'. rewrite Hact in Hact'. done.
Qed.

(** ** The properties at concrete stores *)

Lemma plain_hasher_accepts s pw :
  check_password_hash (PasswordHasher := plain_hasher)
    (generate_password_hash (PasswordHasher := plain_hasher) s pw) pw = true.
Proof. by apply bool_decide_eq_true_2. Qed.

Lemma plain_hasher_rejects s pw pw' :
  pw ≠ pw' →
  check_password_hash (PasswordHasher := plain_hasher)
    (generate_password_hash (PasswordHasher := plain_hasher) s pw) pw' = false.
Proof. intros Hne. apply bool_decide_eq_false_2. intros [= ?]. done. Qed.

Lemma create_then_authenticate_witness :
  ∃ user_id db',
    create_user (H := plain_hasher) "s4lt" "alice" "alice@x.com" "pw1" "viewer" small_db =
      (Returns user_id, db') ∧
    authenticate_user (H := plain_hasher) "alice" "pw1" db' =
      (Returns (Some (mkUser user_id "alice" "alice@x.com" "viewer")), db') ∧
    authenticate_user (H := plain_hasher) "alice@x.com" "pw1" db' =
      (Returns (Some (mkUser user_id "alice" "alice@x.com" "viewer")), db') ∧
    ∀ p', p' ≠ "pw1" → authenticate_user (H := plain_hasher) "alice" p' db' = (Returns None, db').
Proof.
  apply (create_then_authenticate (H := plain_hasher)
           "s4lt" "alice" "alice@x.com" "pw1" "viewer" small_db).
  - apply plain_hasher_accepts.
  - apply plain_hasher_rejects.
  - reflexivity.
  - apply Forall_forall. by_compute.
Defined.

Lemma load_user_ignores_activo_witness :
  load_user 5 small_db =
    (Returns (Some (mkUser 5 "carla" "carla@x.com" "editor")), small_db) ∧
  ∃ db',
    toggle_user_status 5 small_db = (Returns tt, db') ∧
    (true = true →
     load_user 5 db' = (Returns (Some (mkUser 5 "carla" "carla@x.com" "editor")), db') ∧
     ∀ x password u,
       authenticate_user (H := plain_hasher) x password db' = (Returns (Some u), db') →
       id u ≠ 5).
Proof.
  apply (load_user_ignores_activo (H := plain_hasher) small_db carla_row).
  - by_compute.
  - apply elem_of_cons. by left.
Defined.

(** The scenario of the specification: alice registers as a viewer, logs
    in by username and by email, fails with a wrong password, and is refused
    ['manage_users']. *)
Example alice_scenario :
  let db := mkDB [] 1 in
  let db' := mkDB [Usuario.mk 1 "alice" "alice@x.com" "plain$pw1" "viewer" true None] 2 in
  let alice := mkUser 1 "alice" "alice@x.com" "viewer" in
  create_user (H := plain_hasher) "s4lt" "alice" "alice@x.com" "pw1" "viewer" db =
    (Returns 1, db') ∧
  authenticate_user (H := plain_hasher) "alice" "pw1" db' = (Returns (Some alice), db') ∧
  authenticate_user (H := plain_hasher) "alice@x.com" "pw1" db' = (Returns (Some alice), db') ∧
  authenticate_user (H := plain_hasher) "alice" "wrong" db' = (Returns None, db') ∧
  has_permission alice "manage_users" = false.
Proof. split_and!; reflexivity. Qed.

(** An inactive user cannot log in, yet the id still loads. *)
Example dario_inactive :
  authenticate_user (H := plain_hasher) "dario" "clave" small_db = (Returns None, small_db) ∧
  load_user 6 small_db = (Returns (Some (mkUser 6 "dario" "dario@x.com" "viewer")), small_db).
Proof. by split. Qed.

(** A role of the registry in the decorator: the refusal is a redirect
    that names the role. *)
Example role_required_editor_refuses_viewer :
  role_required "editor" (λ _ : unit, mret (page "panel")) tt
    (mkCtx (Some (mkUser 1 "ana" "ana@x.com" "viewer")) []) =
  (Returns (redirect (url_for "index")),
   mkCtx (Some (mkUser 1 "ana" "ana@x.com" "viewer"))
     [("error", "⛔ Se requiere rol de Editor Full")]).
Proof. reflexivity. Qed.

(** ** The store's constraints are kept *)

Lemma update_where_id_store_ok (user_id : Z) (f : Usuario.t → Usuario.t) (db : DB) :
  (∀ r, Usuario.id (f r) = Usuario.id r ∧ Usuario.username (f r) = Usuario.username r ∧
        Usuario.email (f r) = Usuario.email r) →
  store_ok db →
  store_ok (mkDB (update_where_id user_id f (usuarios db)) (usuarios_id_seq db)).
Proof.
  intros Hf (Hid & Hname & Hmail & Hseq). unfold store_ok, update_where_id; simpl.
  assert (∀ {B} (g : Usuario.t → B), (∀ r, g (f r) = g r) →
    g <$> ((λ r, if decide (Usuario.id r = user_id) then f r else r) <$> usuarios db)
    = g <$> usuarios db) as Hmap.
  { intros B g Hg. rewrite <- list_fmap_compose. apply list_fmap_ext.
    intros i r _. simpl. by case_decide. }
  rewrite !Hmap by (intros r; by destruct (Hf r) as (? & ? & ?)).
  split_and!; [done | done | done |].
  apply Forall_fmap. eapply Forall_impl; [exact Hseq |].
  intros r Hr. simpl. case_decide; [| done]. destruct (Hf r) as (-> & _). done.
Qed.

Lemma toggle_user_status_store_ok user_id db :
  store_ok db → store_ok (toggle_user_status user_id db).2.
Proof. intros Hok. by apply update_where_id_store_ok. Qed.

Lemma update_user_role_store_ok user_id r db :
  store_ok db → store_ok (update_user_role user_id r db).2.
Proof.
  intros Hok. unfold update_user_role.
  destruct (dict_mem r ROLES); simpl; [| done]. by apply update_where_id_store_ok.
Qed.

Lemma update_last_login_store_ok now user_id db :
  store_ok db → store_ok (update_last_login now user_id db).2.
Proof. intros Hok. by apply update_where_id_store_ok. Qed.

Lemma create_user_store_ok `{PasswordHasher} salt u e p r db :
  store_ok db → store_ok (create_user salt u e p r db).2.
Proof.
  intros Hok. destruct (dict_mem r ROLES) eqn:Hr;
    [| by rewrite create_user_invalid_role].
  destruct (decide (u ∈ Usuario.username <$> usuarios db ∨ e ∈ Usuario.email <$> usuarios db))
    as [Hdup|Hfresh]; [by rewrite create_user_duplicate |].
  rewrite create_user_fresh; [| done | tauto | tauto].
  destruct Hok as (Hid & Hname & Hmail & Hseq). unfold store_ok; simpl.
  rewrite !fmap_app; simpl. split_and!.
  - apply NoDup_app. split_and!; [done | | apply NoDup_singleton].
    intros i (row & -> & Hrow)%list_elem_of_fmap Hi%list_elem_of_singleton.
    rewrite Forall_forall in Hseq. specialize (Hseq row Hrow). lia.
  - apply NoDup_app. split_and!; [done | | apply NoDup_singleton].
    intros x Hx ->%list_elem_of_singleton. tauto.
  - apply NoDup_app. split_and!; [done | | apply NoDup_singleton].
    intros x Hx ->%list_elem_of_singleton. tauto.
  - apply Forall_app. split.
    + eapply Forall_impl; [exact Hseq |]. intros row Hrow. simpl in *. lia.
    + apply Forall_singleton. simpl. lia.
Qed.

(** * Further properties of the module *)

(** ** Updates by id, seen through the queries *)


Lemma head_filter_holds {A} (P : A → Prop) `{∀ x, Decision (P x)} (l : list A) (x : A) :
  head (filter P l) = Some x → P x ∧ x ∈ l.
Proof.
  intros Hhead%head_Some_elem_of. by apply list_elem_of_filter in Hhead.
Qed.

Lemma no_row_with_id (user_id : Z) (rows : list Usuario.t) :
  user_id ∉ Usuario.id <$> rows ↔ Forall (λ r, ¬ Usuario.id r = user_id) rows.
Proof.
  rewrite Forall_forall. split.
  - intros Hnot r Hr Hid. apply Hnot. rewrite <- Hid. by apply list_elem_of_fmap_2.
  - intros Hall (r & -> & Hr)%list_elem_of_fmap. by apply (Hall r).
Qed.

Lemma update_where_id_absent (user_id : Z) (f : Usuario.t → Usuario.t) (rows : list Usuario.t) :
  user_id ∉ Usuario.id <$> rows → update_where_id user_id f rows = rows.
Proof.
  intros Habs%no_row_with_id. unfold update_where_id.
  rewrite <- (list_fmap_id rows) at 2. apply list_fmap_ext.
  intros i r Hr. rewrite Forall_forall in Habs.
  rewrite decide_False; [done |]. apply Habs. by eapply list_elem_of_lookup_2.
Qed.

Lemma filter_update_where_id (P : Usuario.t → Prop) `{∀ r, Decision (P r)}
    (user_id : Z) (f : Usuario.t → Usuario.t) (rows : list Usuario.t) :
  (∀ r, P (f r) ↔ P r) →
  filter P (update_where_id user_id f rows) = update_where_id user_id f (filter P rows).
Proof.
  intros Hf. unfold update_where_id. induction rows as [|r rows IH]; [done |].
  rewrite fmap_cons. destruct (decide (P r)) as [Hr|Hr].
  - rewrite (filter_cons_True P r) by done. rewrite fmap_cons, <- IH.
    apply filter_cons_True. case_decide; [by apply Hf | done].
  - rewrite (filter_cons_False P r) by done. rewrite <- IH.
    apply filter_cons_False. case_decide; [by rewrite Hf | done].
Qed.

Lemma head_update_where_id (user_id : Z) (f : Usuario.t → Usuario.t) (rows : list Usuario.t) :
  head (update_where_id user_id f rows) =
    (λ r, if decide (Usuario.id r = user_id) then f r else r) <$> head rows.
Proof. by destruct rows. Qed.

(** What [load_user] answers once the rows with one id have been updated
    by a function that keeps the id. *)
Lemma load_user_update (user_id j : Z) (f : Usuario.t → Usuario.t) (db : DB) (s : Z) :
  (∀ r, Usuario.id (f r) = Usuario.id r) →
  (load_user j (mkDB (update_where_id user_id f (usuarios db)) s)).1 =
    Returns ((λ r, principal (if decide (Usuario.id r = user_id) then f r else r)) <$>
               head (filter (λ r, Usuario.id r = j) (usuarios db))).
Proof.
  intros Hf. rewrite load_user_eq. simpl.
  rewrite filter_update_where_id by (intros r; by rewrite Hf).
  rewrite head_update_where_id. by destruct (head _).
Qed.


(** ** Loading a principal *)


(** X2: the login flow closes: when ids are unique, the principal that
    [authenticate_user] returns is the one [load_user] gives back for its id
    on the following requests. *)
Theorem authenticate_then_load `{PasswordHasher} (x password : string) (db : DB) (u : User) :
  NoDup (Usuario.id <$> usuarios db) →
  authenticate_user x password db = (Returns (Some u), db) →
  load_user (id u) db = (Returns (Some u), db).
Proof.
  intros Hnd (row & Hin & _ & ->)%authenticate_user_active.
  rewrite load_user_eq. simpl. by rewrite filter_id_unique.
Qed.

Lemma authenticate_then_load_witness :
  authenticate_user (H := plain_hasher) "carla@x.com" "secreto" small_db =
    (Returns (Some (mkUser 5 "carla" "carla@x.com" "editor")), small_db) ∧
  load_user 5 small_db = (Returns (Some (mkUser 5 "carla" "carla@x.com" "editor")), small_db).
Proof.
  split; [reflexivity |].
  apply (authenticate_then_load (H := plain_hasher) "carla@x.com" "secreto" small_db
           (mkUser 5 "carla" "carla@x.com" "editor")); [by_compute | reflexivity].
Defined.

(** ** Activation, roles and the login stamp *)




(** X5: a role change reaches the session: with unique ids, after
    [update_user_role] with a role of the registry, [load_user] on that id
    gives the same user with the new role, and every other id loads as
    before. *)
Theorem update_user_role_then_load (r : string) (db : DB) (row : Usuario.t) :
  NoDup (Usuario.id <$> usuarios db) → row ∈ usuarios db → dict_mem r ROLES = true →
  ∃ db',
    update_user_role (Usuario.id row) r db = (Returns tt, db') ∧
    load_user (Usuario.id row) db' =
      (Returns (Some (mkUser (Usuario.id row) (Usuario.username row) (Usuario.email row) r)), db') ∧
    (∀ j, j ≠ Usuario.id row → (load_user j db').1 = (load_user j db).1).
Proof.
  intros Hnd Hin Hr. eexists. split; [by apply update_user_role_valid |]. split.
  - pose proof (load_user_update (Usuario.id row) (Usuario.id row) (set_role r) db
                  (usuarios_id_seq db)) as Hload.
    rewrite filter_id_unique in Hload by done. simpl in Hload.
    rewrite decide_True in Hload by done.
    rewrite load_user_eq in Hload |- *. simpl in Hload |- *.
    f_equal. injection Hload; [| done]. by intros ->.
  - intros j Hj. rewrite load_user_update by done. rewrite load_user_eq. simpl. f_equal.
    destruct (head _) as [row'|] eqn:Hhead; [simpl | done].
    apply head_filter_holds in Hhead as [Hid _]. rewrite decide_False; [done | congruence].
Qed.

Lemma update_user_role_then_load_witness :
  ∃ db',
    update_user_role 6 "admin" small_db = (Returns tt, db') ∧
    load_user 6 db' = (Returns (Some (mkUser 6 "dario" "dario@x.com" "admin")), db') ∧
    (∀ j, j ≠ 6 → (load_user j db').1 = (load_user j small_db).1).
Proof.
  apply (update_user_role_then_load "admin" small_db dario_row).
  - by_compute.
  - apply elem_of_cons. right. apply elem_of_cons. by left.
  - reflexivity.
Defined.

(** X6: the functions that update by id do not notice a missing user:
    for an id no row has, [update_user_password], [toggle_user_status],
    [update_user_role] (with a valid role) and [update_last_login] all return
    normally and leave the store as it was. *)
Theorem updates_of_unknown_id_are_silent `{PasswordHasher}
    (user_id now : Z) (salt new_password r : string) (db : DB) :
  user_id ∉ Usuario.id <$> usuarios db → dict_mem r ROLES = true →
  update_user_password salt user_id new_password db = (Returns tt, db) ∧
  toggle_user_status user_id db = (Returns tt, db) ∧
  update_user_role user_id r db = (Returns tt, db) ∧
  update_last_login now user_id db = (Returns tt, db).
Proof.
  intros Habs Hr. destruct db as [rows s]. simpl in Habs.
  assert (∀ f, mkDB (update_where_id user_id f rows) s = mkDB rows s) as Hsame.
  { intros f. by rewrite update_where_id_absent. }
  split_and!.
  - unfold update_user_password, with_db, mbind, M_bind; simpl. by rewrite Hsame.
  - rewrite toggle_user_status_eq. simpl. by rewrite Hsame.
  - rewrite update_user_role_valid by done. simpl. by rewrite Hsame.
  - rewrite update_last_login_eq. simpl. by rewrite Hsame.
Qed.

Lemma updates_of_unknown_id_are_silent_witness :
  update_user_password (H := plain_hasher) "s4lt" 99 "nueva" small_db = (Returns tt, small_db) ∧
  toggle_user_status 99 small_db = (Returns tt, small_db) ∧
  update_user_role 99 "editor" small_db = (Returns tt, small_db) ∧
  update_last_login 1700000500 99 small_db = (Returns tt, small_db).
Proof.
  apply (updates_of_unknown_id_are_silent (H := plain_hasher)
           99 1700000500 "s4lt" "nueva" "editor" small_db); [by_compute | reflexivity].
Defined.

(** ** Changing passwords *)

Section Passwords.
Context `{PasswordHasher}.
Implicit Types (db : DB) (row : Usuario.t) (x salt password : string).


Lemma update_user_password_eq salt user_id password db :
  update_user_password salt user_id password db =
    (Returns tt,
     mkDB (update_where_id user_id
             (set_password_hash (generate_password_hash salt password)) (usuarios db))
          (usuarios_id_seq db)).
Proof. reflexivity. Qed.

Lemma update_own_password_eq salt user_id current new db :
  update_own_password salt user_id current new db =
    match head (filter (λ r, Usuario.id r = user_id) (usuarios db)) with
    | None => (Raises (ValueError "Usuario no encontrado"), db)
    | Some row =>
        if check_password_hash (Usuario.password_hash row) current
        then (Returns true,
              mkDB (update_where_id user_id
                      (set_password_hash (generate_password_hash salt new)) (usuarios db))
                   (usuarios_id_seq db))
        else (Raises (ValueError "Contraseña actual incorrecta"), db)
    end.
Proof.
  unfold update_own_password, with_db, SELECT_password_hash, mbind at 1 2, M_bind; simpl.
  destruct (head _) as [row|]; simpl; [| done].
  by destruct (check_password_hash _ _).
Qed.




(** X9: [update_own_password] refuses without writing: for an id no row
    has it raises [ValueError('Usuario no encontrado')], and when the current
    password does not verify against the user's stored hash it raises
    [ValueError('Contraseña actual incorrecta')]; in both cases the store is
    the one it started from. *)
Theorem update_own_password_refuses salt user_id current new db :
  (user_id ∉ Usuario.id <$> usuarios db →
   update_own_password salt user_id current new db =
     (Raises (ValueError "Usuario no encontrado"), db)) ∧
  (∀ row, NoDup (Usuario.id <$> usuarios db) → row ∈ usuarios db → Usuario.id row = user_id →
          check_password_hash (Usuario.password_hash row) current = false →
          update_own_password salt user_id current new db =
            (Raises (ValueError "Contraseña actual incorrecta"), db)).
Proof.
  split.
  - intros Habs%no_row_with_id. rewrite update_own_password_eq.
    by rewrite filter_none.
  - intros row Hnd Hin <- Hchk. rewrite update_own_password_eq.
    rewrite filter_id_unique by done. simpl. by rewrite Hchk.
Qed.

End Passwords.





(** ** Refused registrations *)

(** X11: [create_user] refuses without writing: a role outside the
    registry raises the [ValueError] that lists the valid roles before the
    store is consulted, so also when the username is already taken; with a
    valid role, a username or an email that is already in the table raises
    [ValueError('El username o email ya existe')] and the rows are as
    before. *)
Theorem create_user_refuses `{PasswordHasher} (salt u e p r : string) (db : DB) :
  (dict_mem r ROLES = false →
   create_user salt u e p r db =
     (Raises (ValueError "Rol inválido. Debe ser uno de: viewer, editor_v2, editor, admin"),
      db)) ∧
  (dict_mem r ROLES = true →
   u ∈ Usuario.username <$> usuarios db ∨ e ∈ Usuario.email <$> usuarios db →
   ∃ db', create_user salt u e p r db =
            (Raises (ValueError "El username o email ya existe"), db') ∧
          usuarios db' = usuarios db).
Proof.
  split.
  - intros Hr. by rewrite create_user_invalid_role.
  - intros Hr Hdup. exists db. by rewrite create_user_duplicate.
Qed.

(** ** More on the guards *)

Lemma role_permissions_below_admin (r : string) :
  role_permissions r ⊆ role_permissions "admin".
Proof.
  unfold role_permissions at 1. unfold ROLES. simpl.
  repeat case_decide; by_compute.
Qed.

Section MoreGuards.
Context {Args : Type}.
Implicit Types (f : view Args) (args : Args) (p : User).
Implicit Types (fl : list (string * string)) (q r : string).

(** Without a signed-in principal neither guard looks at roles or
    permissions: both answer as Flask-Login does for an anonymous request,
    the view is not run, nothing is flashed, and [role_required] raises no
    [KeyError] even for a role that is not in [ROLES]. *)
Lemma guards_anonymous q r f args fl :
  permission_required q f args (mkCtx None fl) = (Returns unauthorized, mkCtx None fl) ∧
  role_required r f args (mkCtx None fl) = (Returns unauthorized, mkCtx None fl).
Proof. by split. Qed.

(** X12: two [permission_required] decorators on one view: the view runs
    exactly when the principal has both permissions; otherwise exactly one
    message is flashed, for the outer permission if that one is missing and
    for the inner one if only that one is. *)
Theorem permission_required_stacked q1 q2 f args p fl :
  let ctx := mkCtx (Some p) fl in
  let stacked := permission_required q1 (permission_required q2 f) args ctx in
  let refused q :=
    (Returns (redirect (url_for "index")),
     mkCtx (Some p)
       (fl ++ [("error",
                "⛔ No tienes permiso para realizar esta acción. Se requiere: " +:+ q)])) in
  (has_permission p q1 = true → has_permission p q2 = true → stacked = f args ctx) ∧
  (has_permission p q1 = false → stacked = refused q1) ∧
  (has_permission p q1 = true → has_permission p q2 = false → stacked = refused q2).
Proof.
  intros ctx stacked refused. unfold stacked, ctx. split_and!.
  - intros H1 H2. by rewrite !permission_required_allowed.
  - intros H1. by rewrite permission_required_denied.
  - intros H1 H2. rewrite permission_required_allowed by done.
    by rewrite permission_required_denied.
Qed.

(** X13: the admin role bounds what [permission_required] can let
    through: a permission that some principal has, whatever its role, an
    admin has too; and for a permission that is not one of the admin's five,
    every principal is refused, the admin included (the admin's free pass is
    in [role_required] only). *)
Theorem admin_permissions_bound q f args p fl :
  (has_permission p q = true → ∀ a, role a = "admin" → has_permission a q = true) ∧
  (q ∉ ["view"; "edit"; "delete"; "manage_users"; "view_audit"] →
   has_permission p q = false ∧
   permission_required q f args (mkCtx (Some p) fl) =
     (Returns (redirect (url_for "index")),
      mkCtx (Some p)
        (fl ++ [("error",
                 "⛔ No tienes permiso para realizar esta acción. Se requiere: " +:+ q)]))).
Proof.
  split.
  - intros Hq%bool_decide_eq_true a Ha. unfold has_permission. rewrite Ha.
    apply bool_decide_eq_true_2. by apply (role_permissions_below_admin (role p)).
  - intros Hq.
    assert (has_permission p q = false) as Hno.
    { apply bool_decide_eq_false_2. intros Hin.
      by apply Hq, (role_permissions_below_admin (role p)). }
    split; [done | by apply permission_required_denied].
Qed.

(** X14: for a role [r] of the registry, [role_required r] never raises:
    a principal whose role is neither [r] nor ['admin'] gets the redirect to
    ['index'] and one flashed message that ends with the display name of
    [r]; and the wrapper acts as the view it protects, for every view,
    exactly when the principal's role is [r] or ['admin']. *)
Theorem role_required_registered_role r f args p fl :
  dict_mem r ROLES = true →
  let ctx := mkCtx (Some p) fl in
  ∃ info,
    dict_get r ROLES = Some info ∧
    (role p ≠ r → role p ≠ "admin" →
     role_required r f args ctx =
       (Returns (redirect (url_for "index")),
        mkCtx (Some p) (fl ++ [("error", "⛔ Se requiere rol de " +:+ name info)]))) ∧
    ((∀ g : view Args, role_required r g args ctx = g args ctx)
     ↔ role p = r ∨ role p = "admin").
Proof.
  intros [info Hinfo]%dict_mem_true ctx. exists info. split_and!; [done | |].
  - intros ??. by apply role_required_denied.
  - apply role_required_invokes_iff.
Qed.
End MoreGuards.

Lemma role_required_registered_role_witness :
  ∃ info,
    dict_get "editor" ROLES = Some info ∧
    (role (mkUser 1 "ana" "ana@x.com" "viewer") ≠ "editor" →
     role (mkUser 1 "ana" "ana@x.com" "viewer") ≠ "admin" →
     role_required "editor" (λ _ : unit, mret (page "panel")) tt
       (mkCtx (Some (mkUser 1 "ana" "ana@x.com" "viewer")) []) =
       (Returns (redirect (url_for "index")),
        mkCtx (Some (mkUser 1 "ana" "ana@x.com" "viewer"))
          ([] ++ [("error", "⛔ Se requiere rol de " +:+ name info)]))) ∧
    ((∀ g : view unit,
        role_required "editor" g tt (mkCtx (Some (mkUser 1 "ana" "ana@x.com" "viewer")) []) =
        g tt (mkCtx (Some (mkUser 1 "ana" "ana@x.com" "viewer")) []))
     ↔ role (mkUser 1 "ana" "ana@x.com" "viewer") = "editor" ∨
       role (mkUser 1 "ana" "ana@x.com" "viewer") = "admin").
Proof.
  apply (role_required_registered_role "editor" (λ _ : unit, mret (page "panel")) tt
           (mkUser 1 "ana" "ana@x.com" "viewer") []).
  reflexivity.
Defined.

(** ** The listings *)

Section ListingProperties.
Variable created_at : Z → Z.






End ListingProperties.

(** ** The connection string *)

Lemma starts_with_app (old rest : string) : starts_with old (old +:+ rest) = true.
Proof.
  induction old as [|a old IH]; simpl; [by destruct rest |].
  by rewrite bool_decide_eq_true_2.
Qed.

Lemma starts_with_occurs (old s : string) :
  starts_with old s = true → ∃ b, s = old +:+ b.
Proof.
  revert s. induction old as [|a old IH]; intros s; simpl.
  - intros _. by exists s.
  - destruct s as [|c s]; [done |].
    intros [Hc Hs]%andb_true_iff. apply bool_decide_eq_true in Hc as ->.
    destruct (IH s Hs) as [b ->]. by exists b.
Qed.

(** When [old] starts a string made of [X] and then [a] and more, either it
    already starts [X], or [X] is a piece of [old] that [a] follows. *)
Lemma starts_with_app_inv (old X : string) (a : Ascii.ascii) (Y : string) :
  starts_with old (X +:+ String a Y) = true →
  starts_with old X = true ∨ ∃ o2, old = X +:+ String a o2.
Proof.
  revert X. induction old as [|o old IH]; intros X; simpl; [by left |].
  destruct X as [|x X]; simpl.
  - intros [Ho _]%andb_true_iff. apply bool_decide_eq_true in Ho as ->.
    right. by exists old.
  - intros [Ho Hrest]%andb_true_iff. apply bool_decide_eq_true in Ho as ->.
    rewrite bool_decide_eq_true_2 by done. simpl.
    destruct (IH X Hrest) as [?|[o2 ->]]; [by left | right; by exists o2].
Qed.

Lemma remove_all_skip (old t rest : string) :
  remove_all old (String.length t) (t +:+ rest) = remove_all old 0 rest.
Proof. induction t as [|c t IH]; [done | apply IH]. Qed.

Lemma string_app_empty (s : string) : s +:+ "" = s.
Proof.
  induction s as [|c s IH]; [done |].
  change (String c (s +:+ "") = String c s). by rewrite IH.
Qed.

Lemma occurs_in_tail (old : string) (c : Ascii.ascii) (s : string) :
  occurs_in old s → occurs_in old (String c s).
Proof. intros (a & b & ->). by exists (String c a), b. Qed.

Lemma remove_all_no_occurrence (old s : string) :
  ¬ occurs_in old s → remove_all old 0 s = s.
Proof.
  induction s as [|c s IH]; intros Hno; [done |].
  cbn [remove_all]. destruct (starts_with old (String c s)) eqn:Hstart.
  - destruct Hno. apply starts_with_occurs in Hstart as [b ->]. by exists "", b.
  - f_equal. apply IH. intros Hocc. by apply Hno, occurs_in_tail.
Qed.

(** Taking out an occurrence of [a old'] that follows a [base] in which it
    does not occur, provided [a] comes back nowhere inside [old']. *)
Lemma remove_all_first_occurrence (a : Ascii.ascii) (old' base rest : string) :
  (∀ X o2, old' ≠ X +:+ String a o2) →
  ¬ occurs_in (String a old') base →
  remove_all (String a old') 0 (base +:+ String a old' +:+ rest) =
    base +:+ remove_all (String a old') 0 rest.
Proof.
  intros Hfresh. induction base as [|c base IH]; intros Hno.
  - change ("" +:+ String a old' +:+ rest) with (String a (old' +:+ rest)).
    cbn [remove_all].
    change (String a (old' +:+ rest)) with (String a old' +:+ rest) at 1.
    rewrite starts_with_app. cbn [String.length]. rewrite Nat.sub_1_r. simpl Nat.pred.
    apply remove_all_skip.
  - change (String c base +:+ String a old' +:+ rest)
      with (String c (base +:+ String a old' +:+ rest)).
    cbn [remove_all].
    destruct (starts_with (String a old') (String c (base +:+ String a old' +:+ rest)))
      eqn:Hstart.
    + exfalso.
      change (String c (base +:+ String a old' +:+ rest))
        with (String c base +:+ String a (old' +:+ rest)) in Hstart.
      apply starts_with_app_inv in Hstart as [Hin|[o2 Heq]].
      * apply Hno. apply starts_with_occurs in Hin as [b ->]. by exists "", b.
      * simpl in Heq. injection Heq as _ Heq. by apply Hfresh in Heq.
    + change (String c base +:+ remove_all (String a old') 0 rest)
        with (String c (base +:+ remove_all (String a old') 0 rest)).
      f_equal. apply IH. intros Hocc. by apply Hno, occurs_in_tail.
Qed.

Lemma channel_binding_no_ampersand (X o2 : string) :
  "channel_binding=require" ≠ X +:+ "&" +:+ o2.
Proof.
  intros Heq.
  repeat (destruct X as [|? X]; simpl in Heq; [discriminate Heq | injection Heq as _ Heq]).
  destruct X; discriminate Heq.
Qed.

(** X17: the connection string: when [DATABASE_URL] is not set,
    [get_db_connection] fails with an [AttributeError] before it connects. A
    URL in which ['&channel_binding=require'] does not occur is passed on as
    it is; a URL that has the parameter after a part without it loses that
    occurrence and nothing else of that part, so a URL ending in the
    parameter is passed on without it. *)
Theorem db_url_clean_parameter :
  db_url_clean None = Raises AttributeError ∧
  (∀ url, ¬ occurs_in "&channel_binding=require" url →
          db_url_clean (Some url) = Returns url) ∧
  (∀ base rest, ¬ occurs_in "&channel_binding=require" base →
     ∃ rest', db_url_clean (Some rest) = Returns rest' ∧
              db_url_clean (Some (base +:+ "&channel_binding=require" +:+ rest)) =
                Returns (base +:+ rest')) ∧
  (∀ base, ¬ occurs_in "&channel_binding=require" base →
     db_url_clean (Some (base +:+ "&channel_binding=require")) = Returns base).
Proof.
  assert (∀ base rest, ¬ occurs_in "&channel_binding=require" base →
    remove_all "&channel_binding=require" 0 (base +:+ "&channel_binding=require" +:+ rest) =
    base +:+ remove_all "&channel_binding=require" 0 rest) as Hdrop.
  { intros base rest Hno.
    apply (remove_all_first_occurrence _ "channel_binding=require" base rest); [| done].
    apply channel_binding_no_ampersand. }
  split_and!.
  - done.
  - intros url Hno. unfold db_url_clean. by rewrite remove_all_no_occurrence.
  - intros base rest Hno. eexists. split; [done |].
    unfold db_url_clean. by rewrite Hdrop.
  - intros base Hno. unfold db_url_clean.
    pose proof (Hdrop base "" Hno) as Hend.
    change ("&channel_binding=require" +:+ "") with "&channel_binding=require" in Hend.
    rewrite Hend. simpl. by rewrite string_app_empty.
Qed.

(** A connection string of the usual shape. *)
Example db_url_clean_neon :
  db_url_clean (Some "postgresql://u:p@host/db?sslmode=require&channel_binding=require") =
    Returns "postgresql://u:p@host/db?sslmode=require".
Proof. reflexivity. Qed.

(** ** The constraints of the table, along every function *)

(** X18: the functions that write keep the table's constraints: from a
    store in which ids, usernames and emails are each unique and the id
    generator is ahead of every id, each of [create_user],
    [update_user_password], [update_own_password], [toggle_user_status],
    [update_user_role] and [update_last_login] leaves such a store, whether it
    returns or raises. *)
Theorem writes_keep_store_ok `{PasswordHasher}
    (salt u e p r current : string) (user_id now : Z) (db : DB) :
  store_ok db →
  store_ok (create_user salt u e p r db).2 ∧
  store_ok (update_user_password salt user_id p db).2 ∧
  store_ok (update_own_password salt user_id current p db).2 ∧
  store_ok (toggle_user_status user_id db).2 ∧
  store_ok (update_user_role user_id r db).2 ∧
  store_ok (update_last_login now user_id db).2.
Proof.
  intros Hok. split_and!.
  - by apply create_user_store_ok.
  - rewrite update_user_password_eq. by apply update_where_id_store_ok.
  - rewrite update_own_password_eq. destruct (head _) as [row|]; [| done].
    destruct (check_password_hash _ _); [| done]. by apply update_where_id_store_ok.
  - by apply toggle_user_status_store_ok.
  - by apply update_user_role_store_ok.
  - by apply update_last_login_store_ok.
Qed.

Lemma small_db_store_ok : store_ok small_db.
Proof. by_compute. Qed.

Lemma writes_keep_store_ok_witness :
  store_ok (create_user (H := plain_hasher) "s4lt" "elsa" "elsa@x.com" "pw" "viewer" small_db).2 ∧
  store_ok (update_user_password (H := plain_hasher) "s4lt" 5 "pw" small_db).2 ∧
  store_ok (update_own_password (H := plain_hasher) "s4lt" 5 "secreto" "pw" small_db).2 ∧
  store_ok (toggle_user_status 5 small_db).2 ∧
  store_ok (update_user_role 5 "viewer" small_db).2 ∧
  store_ok (update_last_login 1700000500 5 small_db).2.
Proof.
  apply (writes_keep_store_ok (H := plain_hasher)
           "s4lt" "elsa" "elsa@x.com" "pw" "viewer" "secreto" 5 1700000500 small_db).
  apply small_db_store_ok.
Defined.

(** X19: registration reaches the session: in a store that meets the
    table's constraints, for a role of the registry and a username and an
    email that are both free, [create_user] returns an id that no row had,
    and [load_user] on that id then gives the principal with the username,
    email and role that were passed; the rows that were there are still
    there, in the same order. *)
Theorem create_then_load `{PasswordHasher} (salt u e p r : string) (db : DB) :
  store_ok db → dict_mem r ROLES = true →
  u ∉ Usuario.username <$> usuarios db → e ∉ Usuario.email <$> usuarios db →
  ∃ user_id db',
    create_user salt u e p r db = (Returns user_id, db') ∧
    (user_id ∉ Usuario.id <$> usuarios db) ∧
    load_user user_id db' = (Returns (Some (mkUser user_id u e r)), db') ∧
    (usuarios db `prefix_of` usuarios db').
Proof.
  intros (Hid & _ & _ & Hseq) Hr Hu He.
  eexists _, _. split; [by apply create_user_fresh |].
  assert (usuarios_id_seq db ∉ Usuario.id <$> usuarios db) as Hfresh.
  { intros (row & Heq & Hrow)%list_elem_of_fmap.
    rewrite Forall_forall in Hseq. specialize (Hseq row Hrow). lia. }
  split_and!; [done | | by eexists].
  rewrite load_user_eq. simpl. rewrite filter_app.
  rewrite filter_none by by apply no_row_with_id.
  by rewrite filter_cons_True.
Qed.

Lemma create_then_load_witness :
  ∃ user_id db',
    create_user (H := plain_hasher) "s4lt" "elsa" "elsa@x.com" "pw" "viewer" small_db =
      (Returns user_id, db') ∧
    (user_id ∉ Usuario.id <$> usuarios small_db) ∧
    load_user user_id db' = (Returns (Some (mkUser user_id "elsa" "elsa@x.com" "viewer")), db') ∧
    (usuarios small_db `prefix_of` usuarios db').
Proof.
  apply (create_then_load (H := plain_hasher) "s4lt" "elsa" "elsa@x.com" "pw" "viewer" small_db).
  - apply small_db_store_ok.
  - reflexivity.
  - by_compute.
  - by_compute.
Defined.

(** ** Names of roles *)

Lemma dict_get_elem_of {V} (k : string) (v : V) (d : dict V) :
  dict_get k d = Some v → (k, v) ∈ d.
Proof.
  induction d as [|[k' v'] d IH]; simpl; [done |].
  case_decide as Hk.
  - intros [= ->]. subst. apply elem_of_cons. by left.
  - intros Hget. apply elem_of_cons. right. by apply IH.
Qed.

Lemma ROLES_named_and_viewable :
  Forall (λ kv, name kv.2 ≠ "Desconocido" ∧ "view" ∈ permissions kv.2) ROLES.
Proof. by_compute. Qed.

(** X20: the sentinel of [get_role_name] is unambiguous: it answers
    ['Desconocido'] exactly for a user whose role is not in [ROLES]; and
    the users who have the permission ['view'] are exactly those whose role
    is in [ROLES]. *)
Theorem get_role_name_sentinel (u : User) :
  (get_role_name u = "Desconocido" ↔ dict_mem (role u) ROLES = false) ∧
  (has_permission u "view" = true ↔ dict_mem (role u) ROLES = true).
Proof.
  unfold get_role_name, has_permission, role_permissions.
  destruct (dict_mem (role u) ROLES) eqn:Hmem.
  - destruct (proj1 (dict_mem_true _ _) Hmem) as [info Hget]. rewrite Hget.
    pose proof ROLES_named_and_viewable as Hall. rewrite Forall_forall in Hall.
    destruct (Hall _ (dict_get_elem_of _ _ _ Hget)) as [Hname Hview]. simpl in *.
    split; [done |]. split; [done |]. intros _. by apply bool_decide_eq_true_2.
  - rewrite (proj1 (dict_mem_false _ _) Hmem). split; [done |].
    split; [| done]. intros Hview%bool_decide_eq_true. by apply elem_of_nil in Hview.
Qed.
